(** * Bulls and Cows, entropy edition: the advisory core of
      [BullsAndCowsgame.py]

    The class [BullsAndCowsGame] is embedded method by method.

    - A Code is a Python tuple of ints: a [list Z] (the tuple type does not
      fix the length, nor the range or the distinctness of the symbols).
    - A Feedback is the pair [(bulls, cows)] of Python ints: [Z * Z].
    - [set(...)] is a [gset Z].
    - The object [self] is a record; a method is a function from the run
      (the object, what has been printed so far, and a count of the
      entropies evaluated so far) to a result or an exception, and a run.
    - [math.log2] and the float arithmetic of the entropy are taken over
      the real numbers: [0.0] is [0], [-1.0] is [-1], [/] is the division
      of [R], [math.log2 x] is [ln x / ln 2]. Rounding is not modelled. *)

From Stdlib Require Import ZArith List Lia Reals Lra.
From stdpp Require Import base decidable option list gmap fin_sets.
From stdpp Require Import strings pretty.

Local Open Scope Z_scope.
Set Warnings "-abstract-large-number".

(** ** Data model *)

(** A Symbol is a Python int, a Code a tuple of them, a Feedback the
    tuple [(bulls, cows)]. *)
Abbreviation Symbol := Z (only parsing).
Abbreviation Code := (list Z) (only parsing).
Abbreviation Feedback := (Z * Z)%type (only parsing).

(** The Code invariant of the game: four pairwise-distinct digits. The
    class relies on it; only [parse_input] checks it. *)
Definition is_symbol (d : Symbol) : Prop := 0 <= d <= 9.

Definition valid_code (c : Code) : Prop :=
  length c = 4%nat /\ NoDup c /\ Forall is_symbol c.

Definition valid_feedback (fb : Feedback) : Prop :=
  0 <= fb.1 <= 4 /\ 0 <= fb.2 <= 4 /\ fb.1 + fb.2 <= 4.

(** ** [get_feedback] *)

(** [zip(secret, guess)]: pairs up to the shorter of the two. *)
Fixpoint zip (secret guess : Code) : list (Symbol * Symbol) :=
  match secret, guess with
  | s :: secret', g :: guess' => (s, g) :: zip secret' guess'
  | _, _ => []
  end.

(** [sum(...)] of a generator of bools: the running total starts at the
    int [0] and adds [True] as [1], [False] as [0]. *)
Definition sum_bools (bs : list bool) : Z :=
  foldl (fun acc b => acc + Z.b2z b) 0 bs.

Definition symbol_set (c : Code) : gset Symbol := list_to_set c.

Definition get_feedback (secret guess : Code) : Feedback :=
  let bulls :=
    sum_bools (map (fun sg => Z.eqb sg.1 sg.2) (zip secret guess)) in
  let common_digits :=
    Z.of_nat (size (symbol_set secret ∩ symbol_set guess)) in
  let cows := common_digits - bulls in
  (bulls, cows).

(** ** The object and the runs of its methods *)

(** The attributes set by [__init__]. [secret] is [None] until
    [generate_secret] runs; [history] is never written after [__init__]. *)
Record Game := {
  all_combinations : list Code;
  candidates : list Code;
  secret : option Code;
  history : list (Code * Feedback)
}.

(** What a method can see and change: the object, the lines printed so
    far, and a counter of the calls of [calculate_guess_entropy] (an
    instrumentation: the source has no such counter). *)
Record Run := {
  self : Game;
  stdout : list string;
  entropy_calls : nat
}.

Inductive exn := IndexError | ValueError | ZeroDivisionError.

Inductive result (A : Type) :=
| Ok (a : A)
| Raise (e : exn).
Arguments Ok {A} a.
Arguments Raise {A} e.

Definition M (A : Type) : Type := Run -> result A * Run.

Definition ret {A} (a : A) : M A := fun w => (Ok a, w).

Definition raise {A} (e : exn) : M A := fun w => (Raise e, w).

Definition bind {A B} (m : M A) (k : A -> M B) : M B :=
  fun w =>
    match m w with
    | (Ok a, w') => k a w'
    | (Raise e, w') => (Raise e, w')
    end.

Declare Scope method_scope.
Delimit Scope method_scope with method.
Notation "x <- m ;; k" := (bind m (fun x => k))
  (at level 100, m at next level, right associativity) : method_scope.
Notation "m ;; k" := (bind m (fun _ => k))
  (at level 100, right associativity) : method_scope.
Local Open Scope method_scope.

Definition get_self : M Game := fun w => (Ok (self w), w).

Definition set_candidates (cs : list Code) : M unit :=
  fun w =>
    (Ok tt,
     {| self := {| all_combinations := all_combinations (self w);
                   candidates := cs;
                   secret := secret (self w);
                   history := history (self w) |};
        stdout := stdout w;
        entropy_calls := entropy_calls w |}).

Definition set_secret (s : Code) : M unit :=
  fun w =>
    (Ok tt,
     {| self := {| all_combinations := all_combinations (self w);
                   candidates := candidates (self w);
                   secret := Some s;
                   history := history (self w) |};
        stdout := stdout w;
        entropy_calls := entropy_calls w |}).

Definition add_line (line : string) (w : Run) : Run :=
  {| self := self w;
     stdout := stdout w ++ [line];
     entropy_calls := entropy_calls w |}.

Definition add_entropy_calls (n : nat) (w : Run) : Run :=
  {| self := self w;
     stdout := stdout w;
     entropy_calls := n + entropy_calls w |}.

Definition print (line : string) : M unit :=
  fun w => (Ok tt, add_line line w).

Definition count_entropy_call : M unit :=
  fun w => (Ok tt, add_entropy_calls 1 w).

(** [for x in xs: body], with the local variables the body assigns as
    the loop state. *)
Fixpoint for_each {A S} (xs : list A) (body : A -> S -> M S) (s : S) : M S :=
  match xs with
  | [] => ret s
  | x :: xs' => s' <- body x s ;; for_each xs' body s'
  end.

(** [[e for x in xs if cond]] and [for x in xs: acc.append(e)]: the
    result list is built by appending at its end. *)
Definition append_each {A B} (keep : A -> bool) (e : A -> B) (xs : list A)
  : list B :=
  foldl (fun acc x => if keep x then acc ++ [e x] else acc) [] xs.

(** ** [__init__] *)

(** [range(n)]. *)
Definition range (n : nat) : list Z := map Z.of_nat (seq 0 n).

(** Every element of the pool with the others, in the order of the pool. *)
Fixpoint picks {A} (pool : list A) : list (A * list A) :=
  match pool with
  | [] => []
  | x :: xs => (x, xs) :: map (fun p => (p.1, x :: p.2)) (picks xs)
  end.

(** [itertools.permutations(pool, r)]: the [r]-length sequences of
    elements at distinct positions, in lexicographic order of the
    positions; none when [r] exceeds the length of the pool. *)
Fixpoint permutations {A} (pool : list A) (r : nat) : list (list A) :=
  match r with
  | O => [[]]
  | S r' =>
      flat_map (fun p => map (cons p.1) (permutations p.2 r')) (picks pool)
  end.

(** The object [__init__] builds. [candidates] is a copy of
    [all_combinations]: assigning the one never changes the other. *)
Definition __init__ : Game :=
  let all := permutations (range 10) 4 in
  {| all_combinations := all;
     candidates := all;
     secret := None;
     history := [] |}.

(** The run of a fresh object: nothing printed, no entropy evaluated. *)
Definition fresh (g : Game) : Run :=
  {| self := g; stdout := []; entropy_calls := 0 |}.

(** Objects in the middle of a game, for the examples. *)
Definition only_1234 : Game :=
  {| all_combinations := all_combinations __init__;
     candidates := [[1; 2; 3; 4]];
     secret := Some [1; 2; 3; 4];
     history := [] |}.

Definition no_candidates : Game :=
  {| all_combinations := all_combinations __init__;
     candidates := [];
     secret := Some [1; 2; 3; 4];
     history := [] |}.

Definition two_left (s : Code) : Game :=
  {| all_combinations := all_combinations __init__;
     candidates := [[1; 2; 3; 4]; [1; 2; 4; 3]];
     secret := Some s;
     history := [] |}.

Definition with_repeats : Game :=
  {| all_combinations := all_combinations __init__;
     candidates := [[1; 1; 2; 2]; [1; 2; 3; 4]];
     secret := Some [1; 2; 3; 4];
     history := [] |}.

Definition no_combinations : Game :=
  {| all_combinations := [];
     candidates := [];
     secret := None;
     history := [] |}.

(** ** [generate_secret] *)

(** [random.choice(seq)] returns [seq[i]] for the index [i] drawn below
    [len(seq)], and raises [IndexError] on an empty sequence. The draw is
    an input of the model. *)
Definition random_choice {A} (draw : nat) (xs : list A) : M A :=
  match xs !! draw with
  | Some x => ret x
  | None => raise IndexError
  end.

Definition generate_secret (draw : nat) : M (option Code) :=
  g <- get_self ;;
  s <- random_choice draw (all_combinations g) ;;
  set_secret s ;;
  g' <- get_self ;;
  ret (secret g').

(** ** [calculate_uncertainty] *)

(** The base-2 logarithm over the reals. *)
Definition log2 (x : R) : R := (ln x / ln 2)%R.

(** [math.log2(x)]: a [ValueError] (math domain error) unless [x] is
    positive. *)
Definition math_log2 (x : R) : M R :=
  if Rle_dec x 0 then raise ValueError else ret (log2 x).

(** [a / b] on two ints: true division, a [ZeroDivisionError] when [b]
    is [0]. *)
Definition true_div (a b : nat) : M R :=
  if decide (b = 0%nat) then raise ZeroDivisionError
  else ret (INR a / INR b)%R.

Definition calculate_uncertainty : M R :=
  g <- get_self ;;
  let pool_size := length (candidates g) in
  if decide (pool_size = 0%nat) then ret 0%R
  else math_log2 (INR pool_size).

(** ** [calculate_guess_entropy] *)

(** [Counter(outcomes)]: a dict from the outcomes to their numbers of
    occurrences, its keys in the order of their first occurrence. *)
Fixpoint counter_add (k : Feedback) (counts : list (Feedback * nat))
  : list (Feedback * nat) :=
  match counts with
  | [] => [(k, 1%nat)]
  | (k', n) :: counts' =>
      if decide (k = k') then (k', S n) :: counts'
      else (k', n) :: counter_add k counts'
  end.

Definition Counter (outcomes : list Feedback) : list (Feedback * nat) :=
  foldl (fun counts k => counter_add k counts) [] outcomes.

Definition values (counts : list (Feedback * nat)) : list nat :=
  map snd counts.

Definition calculate_guess_entropy (guess : Code) (cands : list Code) : M R :=
  count_entropy_call ;;
  let outcomes :=
    append_each (fun _ => true)
      (fun possible_secret => get_feedback possible_secret guess) cands in
  let counts := Counter outcomes in
  let total := length cands in
  let entropy := 0%R in
  entropy <- for_each (values counts)
    (fun count entropy =>
       p <- true_div count total ;;
       l <- math_log2 p ;;
       ret (entropy - p * l)%R)
    entropy ;;
  ret entropy.

(** ** [suggest_best_guess] *)

Definition thinking_line (n : nat) : string :=
  "    [AI is thinking... scanning " +:+ pretty n +:+ " candidates]".

Definition suggest_best_guess : M (option Code) :=
  g <- get_self ;;
  if decide (length (candidates g) = 5040%nat) then ret (Some [0; 1; 2; 3])
  else
    let best_guess : option Code := None in
    let max_entropy : R := (-1)%R in
    let search_space := candidates g in
    print (thinking_line (length search_space)) ;;
    best <- for_each search_space
      (fun guess '(best_guess, max_entropy) =>
         g' <- get_self ;;
         h <- calculate_guess_entropy guess (candidates g') ;;
         if Rgt_dec h max_entropy then ret (Some guess, h)
         else ret (best_guess, max_entropy))
      (best_guess, max_entropy) ;;
    ret best.1.

(** ** [filter_candidates] *)

Definition filter_candidates (guess : Code) (actual_feedback : Feedback)
  : M unit :=
  g <- get_self ;;
  set_candidates
    (append_each
       (fun c => bool_decide (get_feedback c guess = actual_feedback))
       (fun c => c) (candidates g)).

(** ** [parse_input] *)

(** A [str] is taken with code points below 256: the character of code
    point [n] is the [ascii] of that number. *)
Definition code_point (ch : Ascii.ascii) : Z := Z.of_N (Ascii.N_of_ascii ch).

(** The decimal digits ['0'] to ['9'], the only characters below 256
    that [int] reads as a number. *)
Definition is_decimal (ch : Ascii.ascii) : bool :=
  (48 <=? code_point ch) && (code_point ch <=? 57).

(** [ch.isdigit()] for one character: besides the decimal digits, the
    superscripts two, three and one (U+00B2, U+00B3, U+00B9) are digits
    for [str.isdigit]. *)
Definition char_isdigit (ch : Ascii.ascii) : bool :=
  is_decimal ch
  || (code_point ch =? 178) || (code_point ch =? 179)
  || (code_point ch =? 185).

(** [s.isdigit()]: at least one character, and all of them digits. *)
Definition isdigit (s : string) : bool :=
  match s with
  | EmptyString => false
  | String _ _ => forallb char_isdigit (String.list_ascii_of_string s)
  end.

(** [int(d)] on a one-character string: the value of a decimal digit, a
    [ValueError] (invalid literal) on any other character. *)
Definition int_char (d : Ascii.ascii) : M Z :=
  if is_decimal d then ret (code_point d - 48) else raise ValueError.

Definition parse_input (user_input : string) : M (option Code) :=
  if negb (String.length user_input =? 4)%nat || negb (isdigit user_input)
  then ret None
  else
    digits <- for_each (String.list_ascii_of_string user_input)
      (fun d digits => v <- int_char d ;; ret (digits ++ [v])) [] ;;
    if negb (size (symbol_set digits) =? 4)%nat then ret None
    else ret (Some digits).

(** [''.join(map(str, code))], the text [play] prints for a code. *)
Definition join_str (code : Code) : string :=
  foldr (fun d text => pretty d +:+ text) "" code.

(** ** The words of the specification *)

Global Instance is_symbol_dec (d : Symbol) : Decision (is_symbol d) :=
  decide (0 <= d /\ d <= 9).

Global Instance valid_code_dec (c : Code) : Decision (valid_code c) :=
  decide (length c = 4%nat /\ NoDup c /\ Forall is_symbol c).

Global Instance valid_feedback_dec (fb : Feedback)
  : Decision (valid_feedback fb) :=
  decide ((0 <= fb.1 /\ fb.1 <= 4) /\ (0 <= fb.2 /\ fb.2 <= 4)
          /\ fb.1 + fb.2 <= 4).

(** The positions below [n] at which the two sequences carry the same
    symbol. *)
Definition agreeing_positions (secret guess : Code) (n : nat) : list nat :=
  filter (fun i => secret !! i = guess !! i) (seq 0 n).

(** The symbols of the alphabet 0..9 that occur in both sequences. *)
Definition shared_symbols (secret guess : Code) : list Symbol :=
  filter (fun d => d ∈ secret ∧ d ∈ guess) (range 10).

(** The distinct values of [secret] that occur in [guess], whatever the
    alphabet. *)
Definition shared_values (secret guess : Code) : list Z :=
  filter (fun d => d ∈ guess) (remove_dups secret).

Definition bulls_spec (secret guess : Code) : Z :=
  Z.of_nat (length (agreeing_positions secret guess 4)).

Definition cows_spec (secret guess : Code) : Z :=
  Z.of_nat (length (shared_symbols secret guess)) - bulls_spec secret guess.

(** The characters of a text, and the numbers [int] reads from them
    when they are decimal digits. *)
Definition chars (text : string) : list Ascii.ascii :=
  String.list_ascii_of_string text.

Definition all_decimal (text : string) : bool :=
  forallb is_decimal (chars text).

Definition digit_values (text : string) : Code :=
  map (fun d => code_point d - 48) (chars text).

(** The character ['0'] to ['9'] of a symbol. *)
Definition digit_char (d : Symbol) : Ascii.ascii :=
  Ascii.ascii_of_N (Z.to_N (48 + d)).

(** A text with a superscript three in the place of a digit. *)
Definition text_12cubed4 : string :=
  String (digit_char 1)
    (String (digit_char 2)
       (String (Ascii.ascii_of_nat 179) (String (digit_char 4) ""))).

(** The value [calculate_guess_entropy] returns when nothing raises: the
    Shannon entropy of the outcomes of [guess] over the pool. *)
Definition entropy_of (guess : Code) (pool : list Code) : R :=
  foldl (fun entropy count =>
           let p := (INR count / INR (length pool))%R in
           (entropy - p * log2 p)%R)
        0%R
        (values (Counter (map (fun c => get_feedback c guess) pool))).

(** One turn of the search loop of [suggest_best_guess] on its local
    variables [(best_guess, max_entropy)]. *)
Definition scan_step (pool : list Code) (best : option Code * R)
    (guess : Code) : option Code * R :=
  if Rgt_dec (entropy_of guess pool) best.2
  then (Some guess, entropy_of guess pool)
  else best.

(** The components of the result of [get_feedback], by the names of its
    local variables. *)
Definition bulls (secret guess : Code) : Z := (get_feedback secret guess).1.
Definition cows (secret guess : Code) : Z := (get_feedback secret guess).2.
Definition common_digits (secret guess : Code) : Z :=
  Z.of_nat (size (symbol_set secret ∩ symbol_set guess)).

(** Closed decidable propositions, by evaluation. *)
Ltac decide_closed := apply (bool_decide_unpack _); vm_compute; reflexivity.

(** ** The model at work *)

Example get_feedback_reversed :
  get_feedback [1; 2; 3; 4] [4; 3; 2; 1] = (0, 4).
Proof. vm_compute. reflexivity. Qed.

Example get_feedback_one_bull :
  get_feedback [1; 2; 3; 4] [1; 5; 6; 7] = (1, 0).
Proof. vm_compute. reflexivity. Qed.

Example get_feedback_repeats :
  get_feedback [1; 1; 2; 2] [1; 1; 2; 2] = (4, -2).
Proof. vm_compute. reflexivity. Qed.

Example init_size : length (all_combinations __init__) = 5040%nat.
Proof. vm_compute. reflexivity. Qed.

Example init_first : all_combinations __init__ !! 0%nat = Some [0; 1; 2; 3].
Proof. vm_compute. reflexivity. Qed.

Example init_eighth :
  all_combinations __init__ !! 7%nat = Some [0; 1; 3; 2].
Proof. vm_compute. reflexivity. Qed.

Example init_last : all_combinations __init__ !! 5039%nat = Some [9; 8; 7; 6].
Proof. vm_compute. reflexivity. Qed.

Example init_valid : Forall valid_code (all_combinations __init__).
Proof. decide_closed. Qed.

Example thinking_line_3 :
  thinking_line 3 = "    [AI is thinking... scanning 3 candidates]".
Proof. vm_compute. reflexivity. Qed.

(** ** Properties of [get_feedback] *)

Section Feedback.

Implicit Types secret guess c : Code.

Lemma sum_bools_acc (bs : list bool) (a : Z) :
  foldl (fun acc b => acc + Z.b2z b) a bs = a + sum_bools bs.
Proof.
  unfold sum_bools. revert a.
  induction bs as [|b bs IH]; intros a; simpl; [lia|].
  rewrite (IH (a + Z.b2z b)), (IH (0 + Z.b2z b)). lia.
Qed.

Lemma sum_bools_cons (b : bool) (bs : list bool) :
  sum_bools (b :: bs) = Z.b2z b + sum_bools bs.
Proof. unfold sum_bools at 1. simpl. rewrite sum_bools_acc. lia. Qed.

Lemma get_feedback_eq secret guess :
  get_feedback secret guess =
  (bulls secret guess, common_digits secret guess - bulls secret guess).
Proof. reflexivity. Qed.

Lemma bulls_nil_l guess : bulls [] guess = 0.
Proof. reflexivity. Qed.

Lemma bulls_nil_r secret : bulls secret [] = 0.
Proof. destruct secret; reflexivity. Qed.

Lemma bulls_cons s g secret guess :
  bulls (s :: secret) (g :: guess) = Z.b2z (s =? g) + bulls secret guess.
Proof. unfold bulls, get_feedback. simpl. apply sum_bools_cons. Qed.

Lemma length_filter_fmap {A B} (f : A -> B) (P : B -> Prop)
    `{!forall y, Decision (P y)} (l : list A) :
  length (filter P (f <$> l)) = length (filter (fun x => P (f x)) l).
Proof.
  induction l as [|x l IH]; [reflexivity|].
  rewrite fmap_cons, !filter_cons.
  destruct (decide (P (f x))); simpl; rewrite IH; reflexivity.
Qed.

Lemma length_remove_dups (l : list Z) :
  (length (remove_dups l) <= length l)%nat.
Proof.
  induction l as [|x l IH]; simpl; [lia|].
  destruct (decide_rel elem_of x l); simpl; lia.
Qed.

Lemma agreeing_positions_cons s g secret guess n :
  Z.of_nat (length (agreeing_positions (s :: secret) (g :: guess) (S n))) =
  Z.b2z (s =? g) + Z.of_nat (length (agreeing_positions secret guess n)).
Proof.
  unfold agreeing_positions.
  rewrite <- cons_seq, <- fmap_S_seq, filter_cons.
  simpl. destruct (Z.eqb_spec s g) as [->|Hne].
  - rewrite decide_True by done. simpl length.
    rewrite length_filter_fmap. simpl. lia.
  - rewrite decide_False by congruence.
    rewrite length_filter_fmap. simpl. lia.
Qed.

(** The bulls are the agreeing positions below both lengths. *)
Lemma bulls_positions secret guess :
  bulls secret guess =
  Z.of_nat (length (agreeing_positions secret guess
                      (min (length secret) (length guess)))).
Proof.
  revert guess.
  induction secret as [|s secret IH]; intros [|g guess];
    rewrite ?bulls_nil_l, ?bulls_nil_r; try reflexivity.
  rewrite bulls_cons, IH. simpl length. simpl Nat.min.
  rewrite agreeing_positions_cons. reflexivity.
Qed.

Lemma bulls_bounds secret guess :
  0 <= bulls secret guess <= Z.of_nat (min (length secret) (length guess)).
Proof.
  rewrite bulls_positions. unfold agreeing_positions.
  pose proof (length_filter
                (fun i => secret !! i = guess !! i)
                (seq 0 (min (length secret) (length guess)))) as H.
  rewrite length_seq in H. lia.
Qed.

(** The common digits are the distinct values of one that occur in the
    other. *)
Lemma common_digits_values secret guess :
  common_digits secret guess =
  Z.of_nat (length (shared_values secret guess)).
Proof.
  unfold common_digits, shared_values, symbol_set. f_equal.
  unfold size, set_size. simpl.
  apply Permutation_length, NoDup_Permutation.
  - apply NoDup_elements.
  - apply NoDup_filter, NoDup_remove_dups.
  - intros d.
    rewrite elem_of_elements, elem_of_intersection, !elem_of_list_to_set,
      list_elem_of_filter, elem_of_remove_dups.
    tauto.
Qed.

Lemma range_10 : range 10 = [0; 1; 2; 3; 4; 5; 6; 7; 8; 9].
Proof. reflexivity. Qed.

Lemma elem_of_range_10 (d : Z) : d ∈ range 10 <-> is_symbol d.
Proof.
  rewrite range_10. unfold is_symbol.
  rewrite !elem_of_cons, elem_of_nil. lia.
Qed.

Lemma NoDup_range_10 : NoDup (range 10).
Proof. apply (bool_decide_unpack _). vm_compute. reflexivity. Qed.

(** On symbols of the alphabet, the common digits are the symbols of
    0..9 that both codes contain. *)
Lemma common_digits_symbols secret guess :
  Forall is_symbol secret ->
  common_digits secret guess =
  Z.of_nat (length (shared_symbols secret guess)).
Proof.
  intros Hs.
  unfold common_digits, shared_symbols, symbol_set. f_equal.
  unfold size, set_size. simpl.
  apply Permutation_length, NoDup_Permutation.
  - apply NoDup_elements.
  - apply NoDup_filter, NoDup_range_10.
  - intros d.
    rewrite elem_of_elements, elem_of_intersection, !elem_of_list_to_set,
      list_elem_of_filter, elem_of_range_10.
    rewrite Forall_forall in Hs. split; [|tauto].
    intros [Hd Hg]. split; [tauto|]. by apply Hs.
Qed.

(** With pairwise-distinct symbols in the secret, every bull is a
    common digit of its own. *)
Lemma bulls_le_common secret guess :
  NoDup secret -> bulls secret guess <= common_digits secret guess.
Proof.
  unfold common_digits, symbol_set.
  intros Hnd. revert guess.
  induction Hnd as [|s secret Hs Hnd IH]; intros [|g guess];
    rewrite ?bulls_nil_l, ?bulls_nil_r; try lia.
  rewrite bulls_cons. specialize (IH guess).
  destruct (Z.eqb_spec s g) as [->|Hne]; simpl Z.b2z.
  - set (tl := (list_to_set secret ∩ list_to_set guess : gset Z)) in *.
    set (all := (list_to_set (g :: secret) ∩ list_to_set (g :: guess)
                 : gset Z)).
    assert (size ({[g]} ∪ tl) <= size all)%nat as Hsub
      by (apply subseteq_size; set_solver).
    rewrite size_union, size_singleton in Hsub by set_solver.
    lia.
  - set (tl := (list_to_set secret ∩ list_to_set guess : gset Z)) in *.
    set (all := (list_to_set (s :: secret) ∩ list_to_set (g :: guess)
                 : gset Z)).
    assert (size tl <= size all)%nat as Hsub
      by (apply subseteq_size; set_solver).
    lia.
Qed.

Lemma common_digits_le_length secret guess :
  common_digits secret guess <= Z.of_nat (length secret).
Proof.
  rewrite common_digits_values. unfold shared_values.
  pose proof (length_filter (fun d => d ∈ guess) (remove_dups secret)).
  pose proof (length_remove_dups secret). lia.
Qed.

End Feedback.

(** ** The claims on [get_feedback] *)

(** C2. For valid Codes [secret] and [guess] (4 pairwise-distinct symbols
    from 0..9 each), [get_feedback] returns [(bulls, cows)] where [bulls]
    is the number of positions [i] of 0..3 with [secret[i] == guess[i]]
    and [cows] is the number of symbols of the alphabet that both codes
    contain, minus [bulls]. *)
Theorem get_feedback_spec (secret guess : Code) :
  valid_code secret -> valid_code guess ->
  get_feedback secret guess = (bulls_spec secret guess, cows_spec secret guess).
Proof.
  intros (Hls & _ & Has) (Hlg & _ & _).
  rewrite get_feedback_eq. unfold cows_spec, bulls_spec.
  rewrite <- (common_digits_symbols secret guess Has).
  rewrite (bulls_positions secret guess), Hls, Hlg. reflexivity.
Qed.

Lemma get_feedback_spec_witness :
  valid_code [1; 2; 3; 4] /\ valid_code [1; 5; 6; 7] /\
  get_feedback [1; 2; 3; 4] [1; 5; 6; 7] =
  (bulls_spec [1; 2; 3; 4] [1; 5; 6; 7], cows_spec [1; 2; 3; 4] [1; 5; 6; 7]).
Proof.
  assert (valid_code [1; 2; 3; 4]) as Hs by decide_closed.
  assert (valid_code [1; 5; 6; 7]) as Hg by decide_closed.
  split; [exact Hs|]. split; [exact Hg|].
  exact (get_feedback_spec [1; 2; 3; 4] [1; 5; 6; 7] Hs Hg).
Defined.

(** C5. For valid Codes [c] and [g], [get_feedback c g = (bulls, cows)]
    has [bulls] in 0..4, [cows] in 0..4 and [bulls + cows <= 4]; the cows
    are not negative. *)
Theorem get_feedback_range (c g : Code) :
  valid_code c -> valid_code g ->
  valid_feedback (get_feedback c g).
Proof.
  intros (Hlc & Hdc & _) (Hlg & _ & _).
  rewrite get_feedback_eq. unfold valid_feedback. simpl.
  pose proof (bulls_bounds c g) as Hb.
  pose proof (bulls_le_common c g Hdc) as Hbc.
  pose proof (common_digits_le_length c g) as Hc.
  rewrite Hlc in Hb, Hc. rewrite Hlg in Hb. simpl in Hb.
  lia.
Qed.

Lemma get_feedback_range_witness :
  valid_code [1; 2; 3; 4] /\ valid_code [4; 3; 2; 1] /\
  valid_feedback (get_feedback [1; 2; 3; 4] [4; 3; 2; 1]).
Proof.
  assert (valid_code [1; 2; 3; 4]) as Hc by decide_closed.
  assert (valid_code [4; 3; 2; 1]) as Hg by decide_closed.
  split; [exact Hc|]. split; [exact Hg|].
  exact (get_feedback_range [1; 2; 3; 4] [4; 3; 2; 1] Hc Hg).
Defined.

(** ** Runs of the methods *)

Section Runs.

Implicit Types (w : Run) (guess : Code) (pool cands : list Code).

Lemma add_entropy_calls_0 w : add_entropy_calls 0 w = w.
Proof. destruct w. reflexivity. Qed.

Lemma add_entropy_calls_S n w :
  add_entropy_calls n (add_entropy_calls 1 w) = add_entropy_calls (S n) w.
Proof. unfold add_entropy_calls. simpl. f_equal. lia. Qed.

Lemma append_each_acc {A B} (keep : A -> bool) (e : A -> B) xs acc :
  foldl (fun acc x => if keep x then acc ++ [e x] else acc) acc xs =
  acc ++ (e <$> filter (fun x => keep x = true) xs).
Proof.
  revert acc. induction xs as [|x xs IH]; intros acc; simpl.
  - by rewrite app_nil_r.
  - rewrite IH, filter_cons. destruct (keep x) eqn:Hk.
    + rewrite decide_True by done. by rewrite <- app_assoc.
    + rewrite decide_False by done. reflexivity.
Qed.

(** The list built by appending is the filtered list, in order. *)
Lemma append_each_filter {A B} (keep : A -> bool) (e : A -> B) xs :
  append_each keep e xs = e <$> filter (fun x => keep x = true) xs.
Proof. unfold append_each. by rewrite append_each_acc. Qed.

Lemma append_each_all {A B} (e : A -> B) xs :
  append_each (fun _ => true) e xs = map e xs.
Proof.
  rewrite append_each_filter. f_equal.
  induction xs as [|x xs IH]; [done|].
  rewrite filter_cons_True by done. by rewrite IH.
Qed.

Lemma append_each_decide (P : Code -> Prop) `{!forall c, Decision (P c)} pool :
  append_each (fun c => bool_decide (P c)) (fun c => c) pool = filter P pool.
Proof.
  rewrite append_each_filter, list_fmap_id.
  apply list_filter_iff. intros c. by rewrite bool_decide_eq_true.
Qed.

Lemma counter_add_positive k counts :
  Forall (fun n => (0 < n)%nat) (values counts) ->
  Forall (fun n => (0 < n)%nat) (values (counter_add k counts)).
Proof.
  unfold values.
  induction counts as [|[k' n] counts IH]; simpl; intros H.
  - repeat constructor.
  - inversion H as [|? ? Hn Hrest]; subst.
    destruct (decide (k = k')); simpl; constructor; auto with lia.
Qed.

Lemma Counter_positive outcomes :
  Forall (fun n => (0 < n)%nat) (values (Counter outcomes)).
Proof.
  unfold Counter.
  assert (forall counts,
             Forall (fun n => (0 < n)%nat) (values counts) ->
             Forall (fun n => (0 < n)%nat)
               (values (foldl (fun counts k => counter_add k counts)
                          counts outcomes))) as Hgen.
  { induction outcomes as [|k outcomes IH]; intros counts H; simpl; [done|].
    apply IH, counter_add_positive, H. }
  apply Hgen. constructor.
Qed.

(** The entropy loop raises nothing when the counts and the total are
    positive. *)
Lemma entropy_loop_run (total : nat) (vs : list nat) (e : R) w :
  (0 < total)%nat ->
  Forall (fun n => (0 < n)%nat) vs ->
  for_each vs
    (fun count entropy =>
       p <- true_div count total ;;
       l <- math_log2 p ;;
       ret (entropy - p * l)%R) e w
  = (Ok (foldl (fun entropy count =>
                  let p := (INR count / INR total)%R in
                  (entropy - p * log2 p)%R) e vs), w).
Proof.
  intros Ht Hvs. revert e.
  induction Hvs as [|c vs Hc Hvs IH]; intros e; simpl; [reflexivity|].
  unfold bind at 1. unfold bind at 1. unfold true_div.
  rewrite decide_False by lia. unfold ret at 1. unfold bind at 1.
  unfold math_log2.
  destruct (Rle_dec (INR c / INR total) 0) as [Hle|_].
  - exfalso.
    assert (0 < INR c)%R by (apply lt_0_INR; lia).
    assert (0 < INR total)%R by (apply lt_0_INR; lia).
    assert (0 < INR c / INR total)%R by (by apply Rdiv_lt_0_compat).
    lra.
  - unfold ret at 1 2. apply IH.
Qed.

Lemma calculate_guess_entropy_run guess cands w :
  calculate_guess_entropy guess cands w =
  (Ok (entropy_of guess cands), add_entropy_calls 1 w).
Proof.
  unfold calculate_guess_entropy, entropy_of.
  unfold bind at 1. unfold count_entropy_call.
  rewrite append_each_all. unfold bind at 1.
  destruct cands as [|c cands].
  - reflexivity.
  - rewrite entropy_loop_run; [reflexivity|simpl; lia|].
    apply Counter_positive.
Qed.

Lemma scan_run pool xs (best : option Code * R) w :
  candidates (self w) = pool ->
  for_each xs
    (fun guess '(best_guess, max_entropy) =>
       g' <- get_self ;;
       h <- calculate_guess_entropy guess (candidates g') ;;
       if Rgt_dec h max_entropy then ret (Some guess, h)
       else ret (best_guess, max_entropy)) best w
  = (Ok (foldl (scan_step pool) best xs),
     add_entropy_calls (length xs) w).
Proof.
  intros Hpool. revert best w Hpool.
  induction xs as [|x xs IH]; intros [b m] w Hpool; simpl.
  - by rewrite add_entropy_calls_0.
  - unfold bind at 1. unfold bind at 1. unfold get_self at 1.
    unfold bind at 1. rewrite calculate_guess_entropy_run, Hpool.
    unfold scan_step at 2. simpl.
    destruct (Rgt_dec (entropy_of x pool) m); unfold ret at 1;
      rewrite (IH _ (add_entropy_calls 1 w) Hpool), add_entropy_calls_S;
      reflexivity.
Qed.

(** The whole run of [suggest_best_guess]: the result, what is printed
    and how many entropies are evaluated. *)
Lemma suggest_best_guess_run w :
  suggest_best_guess w =
  let pool := candidates (self w) in
  if decide (length pool = 5040%nat) then (Ok (Some [0; 1; 2; 3]), w)
  else (Ok (foldl (scan_step pool) (None, (-1)%R) pool).1,
        add_entropy_calls (length pool)
          (add_line (thinking_line (length pool)) w)).
Proof.
  unfold suggest_best_guess. unfold bind at 1. unfold get_self at 1.
  cbv beta iota zeta.
  destruct (decide (length (candidates (self w)) = 5040%nat));
    [reflexivity|].
  unfold bind at 1. unfold print at 1. unfold bind at 1.
  rewrite (scan_run (candidates (self w))) by reflexivity.
  reflexivity.
Qed.

Lemma filter_candidates_run guess (fb : Feedback) w :
  filter_candidates guess fb w =
  (Ok tt,
   {| self := {| all_combinations := all_combinations (self w);
                 candidates :=
                   filter (fun c => get_feedback c guess = fb)
                     (candidates (self w));
                 secret := secret (self w);
                 history := history (self w) |};
      stdout := stdout w;
      entropy_calls := entropy_calls w |}).
Proof.
  unfold filter_candidates, bind, get_self, set_candidates. simpl.
  by rewrite append_each_decide.
Qed.

Lemma calculate_uncertainty_run w :
  calculate_uncertainty w =
  (Ok (if decide (length (candidates (self w)) = 0%nat) then 0%R
       else log2 (INR (length (candidates (self w))))), w).
Proof.
  unfold calculate_uncertainty, bind, get_self. simpl.
  destruct (decide (length (candidates (self w)) = 0%nat)); [reflexivity|].
  unfold math_log2.
  destruct (Rle_dec (INR (length (candidates (self w)))) 0) as [Hle|_];
    [|reflexivity].
  exfalso.
  assert (0 < INR (length (candidates (self w))))%R
    by (apply lt_0_INR; lia).
  lra.
Qed.

End Runs.

(** ** The claims on the candidate pool *)

(** C1. [filter_candidates] raises nothing and replaces the pool with
    exactly the candidates [c] of the old pool for which
    [get_feedback(c, guess)] equals the observed feedback, in their
    relative order: the new pool is the old one filtered, so a sublist of
    it whose members are the members of the old pool with that feedback. *)
Theorem filter_candidates_spec (guess : Code) (fb : Feedback) (w : Run) :
  let old := candidates (self w) in
  let new := candidates (self (filter_candidates guess fb w).2) in
  (filter_candidates guess fb w).1 = Ok tt /\
  new = filter (fun c => get_feedback c guess = fb) old /\
  new `sublist_of` old /\
  (forall c : Code, c ∈ new <-> c ∈ old /\ get_feedback c guess = fb).
Proof.
  rewrite filter_candidates_run. simpl.
  split; [reflexivity|]. split; [reflexivity|]. split.
  - apply sublist_filter.
  - intros c. rewrite list_elem_of_filter. tauto.
Qed.

Example filter_candidates_perfect :
  candidates (self (filter_candidates [1; 2; 3; 4] (4, 0) (fresh __init__)).2)
  = [[1; 2; 3; 4]].
Proof. vm_compute. reflexivity. Qed.

Lemma log2_nonneg (x : R) : (1 <= x)%R -> (0 <= log2 x)%R.
Proof.
  intros Hx. unfold log2.
  pose proof ln_lt_2 as H2.
  assert (0 <= ln x)%R as Hln.
  { destruct Hx as [Hlt|<-]; [|rewrite ln_1; lra].
    rewrite <- ln_1. left. apply ln_increasing; lra. }
  apply Rmult_le_pos; [exact Hln|].
  left. apply Rinv_0_lt_compat. lra.
Qed.

Lemma log2_le (x y : R) : (0 < x)%R -> (x <= y)%R -> (log2 x <= log2 y)%R.
Proof.
  intros Hx Hxy. unfold log2.
  pose proof ln_lt_2 as H2.
  apply Rmult_le_compat_r.
  - left. apply Rinv_0_lt_compat. lra.
  - destruct Hxy as [Hlt|<-]; [|lra].
    left. by apply ln_increasing.
Qed.

(** C6. The uncertainty of the pool (log2 of its size, 0 for the empty
    pool) does not increase across a call of [filter_candidates], for
    every guess and feedback; neither call of [calculate_uncertainty]
    raises. *)
Theorem uncertainty_non_increasing (guess : Code) (fb : Feedback) (w : Run) :
  exists before after : R,
    (calculate_uncertainty w).1 = Ok before /\
    (calculate_uncertainty (filter_candidates guess fb w).2).1 = Ok after /\
    (after <= before)%R.
Proof.
  rewrite filter_candidates_run, !calculate_uncertainty_run. simpl.
  eexists _, _. split; [reflexivity|]. split; [reflexivity|].
  pose proof (length_filter (fun c => get_feedback c guess = fb)
                (candidates (self w))) as Hlen.
  set (n' := length (filter _ _)) in *.
  set (n := length (candidates (self w))) in *.
  destruct (decide (n' = 0%nat)) as [Hn'|Hn'];
    destruct (decide (n = 0%nat)) as [Hn|Hn]; try lra; try lia.
  - apply log2_nonneg. change 1%R with (INR 1). apply le_INR. lia.
  - apply log2_le; [apply lt_0_INR; lia | apply le_INR; lia].
Qed.

(** ** The claims on [suggest_best_guess] *)

(** C3. On a pool of size 5040 [suggest_best_guess] returns [(0,1,2,3)]
    and leaves the run as it was: no entropy is evaluated and nothing is
    printed. *)
Theorem suggest_best_guess_opening (w : Run) :
  length (candidates (self w)) = 5040%nat ->
  suggest_best_guess w = (Ok (Some [0; 1; 2; 3]), w) /\
  entropy_calls (suggest_best_guess w).2 = entropy_calls w.
Proof.
  intros Hlen. rewrite suggest_best_guess_run. cbv zeta.
  rewrite decide_True by exact Hlen. split; reflexivity.
Qed.

Lemma suggest_best_guess_opening_witness :
  length (candidates (self (fresh __init__))) = 5040%nat /\
  suggest_best_guess (fresh __init__)
  = (Ok (Some [0; 1; 2; 3]), fresh __init__) /\
  entropy_calls (suggest_best_guess (fresh __init__)).2 = 0%nat.
Proof.
  split; [vm_compute; reflexivity|].
  apply (suggest_best_guess_opening (fresh __init__)).
  vm_compute; reflexivity.
Defined.

Lemma entropy_of_singleton (x : Code) : entropy_of x [x] = 0%R.
Proof.
  unfold entropy_of, Counter, values, log2. simpl.
  replace (1 / 1)%R with 1%R by lra.
  rewrite ln_1. lra.
Qed.

Lemma length_1_not_5040 {A} (x : A) : length [x] <> 5040%nat.
Proof. vm_compute. discriminate. Qed.

Lemma length_0_not_5040 {A} : length (@nil A) <> 5040%nat.
Proof. vm_compute. discriminate. Qed.

(** C7. On a singleton pool [[x]] [suggest_best_guess] returns [x]. *)
Theorem suggest_best_guess_singleton (w : Run) (x : Code) :
  candidates (self w) = [x] ->
  (suggest_best_guess w).1 = Ok (Some x).
Proof.
  intros Hpool. rewrite suggest_best_guess_run. cbv zeta. rewrite Hpool.
  rewrite decide_False by apply length_1_not_5040.
  simpl. unfold scan_step. rewrite entropy_of_singleton. simpl.
  destruct (Rgt_dec 0 (-1)) as [_|Hn]; [reflexivity|].
  exfalso. apply Hn. lra.
Qed.

Lemma suggest_best_guess_singleton_witness :
  candidates (self (fresh only_1234)) = [[1; 2; 3; 4]] /\
  (suggest_best_guess (fresh only_1234)).1 = Ok (Some [1; 2; 3; 4]).
Proof.
  split; [reflexivity|].
  apply (suggest_best_guess_singleton (fresh only_1234) [1; 2; 3; 4]).
  reflexivity.
Defined.

(** C10. On the empty pool [suggest_best_guess] returns [None]: it raises
    nothing, prints its line, runs the loop zero times and evaluates no
    entropy. *)
Theorem suggest_best_guess_empty (w : Run) :
  candidates (self w) = [] ->
  suggest_best_guess w = (Ok None, add_line (thinking_line 0) w) /\
  entropy_calls (suggest_best_guess w).2 = entropy_calls w.
Proof.
  intros Hpool. rewrite suggest_best_guess_run. cbv zeta. rewrite Hpool.
  rewrite decide_False by apply length_0_not_5040.
  simpl. rewrite add_entropy_calls_0. split; reflexivity.
Qed.

Lemma suggest_best_guess_empty_witness :
  candidates (self (fresh no_candidates)) = [] /\
  suggest_best_guess (fresh no_candidates) =
    (Ok None, add_line (thinking_line 0) (fresh no_candidates)) /\
  entropy_calls (suggest_best_guess (fresh no_candidates)).2 = 0%nat.
Proof.
  split; [reflexivity|].
  apply (suggest_best_guess_empty (fresh no_candidates)). reflexivity.
Defined.

(** C9. The Advisor is blind to the secret: on two runs whose objects
    have the same candidates, whatever their secrets (and their other
    attributes), [suggest_best_guess] returns the same result. *)
Theorem suggest_best_guess_blind (w1 w2 : Run) :
  candidates (self w1) = candidates (self w2) ->
  (suggest_best_guess w1).1 = (suggest_best_guess w2).1.
Proof.
  intros Hpool. rewrite !suggest_best_guess_run. cbv zeta. rewrite Hpool.
  destruct (decide (length (candidates (self w2)) = 5040%nat)); reflexivity.
Qed.

Lemma suggest_best_guess_blind_witness :
  secret (two_left [1; 2; 3; 4]) <> secret (two_left [1; 2; 4; 3]) /\
  candidates (self (fresh (two_left [1; 2; 3; 4]))) =
    candidates (self (fresh (two_left [1; 2; 4; 3]))) /\
  (suggest_best_guess (fresh (two_left [1; 2; 3; 4]))).1 =
    (suggest_best_guess (fresh (two_left [1; 2; 4; 3]))).1.
Proof.
  split; [simpl; congruence|]. split; [reflexivity|].
  apply (suggest_best_guess_blind (fresh (two_left [1; 2; 3; 4]))
           (fresh (two_left [1; 2; 4; 3]))).
  reflexivity.
Defined.

(** ** The claims on the state of the session *)

Lemma generate_secret_candidates (draw : nat) (w : Run) :
  candidates (self (generate_secret draw w).2) = candidates (self w).
Proof.
  unfold generate_secret, bind, get_self, random_choice.
  destruct (all_combinations (self w) !! draw); reflexivity.
Qed.

(** C8. The Advisor and the Estimator only read the pool:
    [suggest_best_guess], [calculate_guess_entropy] and
    [calculate_uncertainty] leave the object (its candidates and every
    other attribute) as it was. [generate_secret] leaves the candidates
    as they were, [filter_candidates] leaves the other attributes as they
    were, and there is a run in which [filter_candidates] changes the
    candidates. *)
Theorem only_filter_candidates_writes_pool (w : Run) :
  self (suggest_best_guess w).2 = self w /\
  (forall (guess : Code) (cands : list Code),
      self (calculate_guess_entropy guess cands w).2 = self w) /\
  self (calculate_uncertainty w).2 = self w /\
  (forall draw : nat,
      candidates (self (generate_secret draw w).2) = candidates (self w)) /\
  (forall (guess : Code) (fb : Feedback),
      let g' := self (filter_candidates guess fb w).2 in
      all_combinations g' = all_combinations (self w) /\
      secret g' = secret (self w) /\
      history g' = history (self w)) /\
  (exists (w0 : Run) (guess : Code) (fb : Feedback),
      candidates (self (filter_candidates guess fb w0).2)
      <> candidates (self w0)).
Proof.
  split_and!.
  - rewrite suggest_best_guess_run. cbv zeta.
    destruct (decide (length (candidates (self w)) = 5040%nat)); reflexivity.
  - intros guess cands. rewrite calculate_guess_entropy_run. reflexivity.
  - rewrite calculate_uncertainty_run. reflexivity.
  - intros draw. apply generate_secret_candidates.
  - intros guess fb. rewrite filter_candidates_run. simpl. done.
  - exists (fresh with_repeats), [1; 2; 3; 4], (4, 0).
    rewrite filter_candidates_run. vm_compute. discriminate.
Qed.

(** ** The claim on malformed Codes *)

(** C4, as stated, fails: on the secret and guess [(1,1,2,2)], a tuple
    with repeated symbols, [get_feedback] returns the pair [(4,-2)],
    which is no Feedback; [filter_candidates] with that guess returns
    without an error and keeps the malformed candidate in the pool. *)
Lemma get_feedback_returns_on_repeats :
  ~ valid_code [1; 1; 2; 2] /\
  get_feedback [1; 1; 2; 2] [1; 1; 2; 2] = (4, -2) /\
  ~ valid_feedback (4, -2) /\
  (filter_candidates [1; 1; 2; 2] (4, -2) (fresh with_repeats)).1 = Ok tt /\
  candidates (self (filter_candidates [1; 1; 2; 2] (4, -2)
                      (fresh with_repeats)).2) = [[1; 1; 2; 2]].
Proof.
  split; [decide_closed|].
  split; [vm_compute; reflexivity|].
  split; [decide_closed|].
  split; vm_compute; reflexivity.
Qed.

(** C4, amended. [get_feedback] checks nothing: for every two tuples of
    ints, malformed or not, it returns the pair [(bulls, cows)] where
    [bulls] is the number of positions below both lengths at which the
    tuples agree and [cows] is the number of distinct values of [secret]
    that occur in [guess], minus [bulls]. *)
Theorem get_feedback_unchecked (secret guess : Code) :
  let n := min (length secret) (length guess) in
  get_feedback secret guess =
  (Z.of_nat (length (agreeing_positions secret guess n)),
   Z.of_nat (length (shared_values secret guess))
   - Z.of_nat (length (agreeing_positions secret guess n))).
Proof.
  cbv zeta.
  rewrite get_feedback_eq, (common_digits_values secret guess),
    (bulls_positions secret guess).
  reflexivity.
Qed.

Example parse_input_1234 (w : Run) :
  parse_input "1234" w = (Ok (Some [1; 2; 3; 4]), w).
Proof. reflexivity. Qed.

Example parse_input_1123 (w : Run) : parse_input "1123" w = (Ok None, w).
Proof. reflexivity. Qed.

Example parse_input_12a4 (w : Run) : parse_input "12a4" w = (Ok None, w).
Proof. reflexivity. Qed.

Example join_str_0123 : join_str [0; 1; 2; 3] = "0123".
Proof. reflexivity. Qed.

(** ** More on [get_feedback] *)

Lemma bulls_sym (secret guess : Code) : bulls secret guess = bulls guess secret.
Proof.
  revert guess.
  induction secret as [|s secret IH]; intros [|g guess];
    rewrite ?bulls_nil_l, ?bulls_nil_r; try reflexivity.
  rewrite !bulls_cons, IH, (Z.eqb_sym s g). reflexivity.
Qed.

(** X1. [get_feedback] is symmetric in its two arguments, bulls and cows
    alike, for all tuples of ints. *)
Theorem get_feedback_sym (secret guess : Code) :
  get_feedback secret guess = get_feedback guess secret.
Proof.
  rewrite !get_feedback_eq, (bulls_sym secret guess).
  unfold common_digits.
  rewrite (comm_L (∩) (symbol_set secret) (symbol_set guess)).
  reflexivity.
Qed.

Lemma bulls_self (c : Code) : bulls c c = Z.of_nat (length c).
Proof.
  induction c as [|s c IH]; [reflexivity|].
  rewrite bulls_cons, IH, Z.eqb_refl. simpl length. simpl Z.b2z. lia.
Qed.

(** X2. A tuple of pairwise-distinct symbols scored against itself gives
    all bulls and no cows: [(len(c), 0)], so [(4, 0)] for a Code. *)
Theorem get_feedback_self (c : Code) :
  NoDup c -> get_feedback c c = (Z.of_nat (length c), 0).
Proof.
  intros Hnd. rewrite get_feedback_eq, bulls_self.
  unfold common_digits, symbol_set.
  rewrite (idemp_L (∩) (list_to_set c : gset Z)).
  rewrite size_list_to_set by exact Hnd.
  f_equal. lia.
Qed.

Lemma get_feedback_self_witness :
  NoDup [1; 2; 3; 4] /\ get_feedback [1; 2; 3; 4] [1; 2; 3; 4] = (4, 0).
Proof.
  assert (NoDup [1; 2; 3; 4]) as Hnd by decide_closed.
  split; [exact Hnd|]. exact (get_feedback_self [1; 2; 3; 4] Hnd).
Defined.

Lemma bulls_length_iff (secret guess : Code) :
  length secret = length guess ->
  (get_feedback secret guess).1 = Z.of_nat (length secret) <->
  guess = secret.
Proof.
  change (get_feedback secret guess).1 with (bulls secret guess).
  revert guess.
  induction secret as [|s secret IH]; intros [|g guess] Hlen;
    try discriminate Hlen.
  - split; reflexivity.
  - injection Hlen as Hlen. rewrite bulls_cons.
    pose proof (bulls_bounds secret guess) as Hb.
    rewrite <- Hlen, Nat.min_id in Hb.
    specialize (IH guess Hlen). simpl length.
    destruct (Z.eqb_spec s g) as [->|Hne]; simpl Z.b2z.
    + split.
      * intros H. f_equal. apply IH. lia.
      * intros [= ->]. rewrite (proj2 IH eq_refl). lia.
    + split; [lia|]. intros [= ? ?]. congruence.
Qed.

(** X3. On two tuples of the same length the bulls reach that length
    exactly when the guess is the secret: with Codes, [bulls == 4] holds
    for the secret and for no other guess. *)
Theorem bulls_full_iff_equal (secret guess : Code) :
  length secret = length guess ->
  (get_feedback secret guess).1 = Z.of_nat (length secret) <->
  guess = secret.
Proof. apply bulls_length_iff. Qed.

Lemma bulls_full_iff_equal_witness :
  length [1; 2; 3; 4] = length [1; 2; 4; 3] /\
  ((get_feedback [1; 2; 3; 4] [1; 2; 4; 3]).1 = 4 <->
   [1; 2; 4; 3] = [1; 2; 3; 4]).
Proof.
  split; [reflexivity|].
  exact (bulls_full_iff_equal [1; 2; 3; 4] [1; 2; 4; 3] eq_refl).
Defined.

(** ** More on [filter_candidates] *)

Lemma filter_twice {A} (P : A -> Prop) `{!forall x, Decision (P x)}
    (l : list A) :
  filter P (filter P l) = filter P l.
Proof.
  induction l as [|x l IH]; [reflexivity|].
  rewrite filter_cons. destruct (decide (P x)) as [HP|HP]; [|exact IH].
  rewrite filter_cons_True by exact HP. by rewrite IH.
Qed.

Lemma filter_swap {A} (P Q : A -> Prop) `{!forall x, Decision (P x)}
    `{!forall x, Decision (Q x)} (l : list A) :
  filter P (filter Q l) = filter Q (filter P l).
Proof.
  induction l as [|x l IH]; [reflexivity|].
  rewrite !filter_cons.
  destruct (decide (P x)) as [HP|HP], (decide (Q x)) as [HQ|HQ];
    rewrite ?filter_cons, ?decide_True, ?decide_False by assumption;
    by rewrite IH.
Qed.

(** X4. [filter_candidates] is idempotent: a second call with the same
    guess and feedback returns without an error and leaves the run, the
    pool included, as the first call left it. *)
Theorem filter_candidates_idempotent (guess : Code) (fb : Feedback) (w : Run) :
  filter_candidates guess fb (filter_candidates guess fb w).2 =
  (Ok tt, (filter_candidates guess fb w).2).
Proof.
  rewrite !filter_candidates_run. simpl. by rewrite filter_twice.
Qed.

(** X5. Two observations can be applied in either order: filtering by
    [(guess1, fb1)] then [(guess2, fb2)] ends in the same run as
    filtering by [(guess2, fb2)] then [(guess1, fb1)]. *)
Theorem filter_candidates_commute (guess1 guess2 : Code) (fb1 fb2 : Feedback)
    (w : Run) :
  filter_candidates guess2 fb2 (filter_candidates guess1 fb1 w).2 =
  filter_candidates guess1 fb1 (filter_candidates guess2 fb2 w).2.
Proof.
  rewrite !filter_candidates_run. simpl.
  by rewrite (filter_swap (fun c => get_feedback c guess2 = fb2)).
Qed.

(** X6. Honest feedback never loses the secret: when [s] is in the pool
    and the feedback is the one [get_feedback] gives for [s] and the
    guess, [s] is still in the pool after [filter_candidates], so the
    pool is not empty. *)
Theorem filter_candidates_keeps_secret (s guess : Code) (w : Run) :
  s ∈ candidates (self w) ->
  let new :=
    candidates (self (filter_candidates guess (get_feedback s guess) w).2) in
  s ∈ new /\ new <> [].
Proof.
  intros Hs. rewrite filter_candidates_run. simpl.
  assert (s ∈ filter (fun c => get_feedback c guess = get_feedback s guess)
                (candidates (self w))) as Hin
    by (rewrite list_elem_of_filter; done).
  split; [exact Hin|]. intros Hnil. rewrite Hnil in Hin.
  by apply elem_of_nil in Hin.
Qed.

Lemma filter_candidates_keeps_secret_witness :
  [1; 2; 4; 3] ∈ candidates (self (fresh (two_left [1; 2; 4; 3]))) /\
  [1; 2; 4; 3] ∈
    candidates
      (self (filter_candidates [1; 2; 3; 4]
               (get_feedback [1; 2; 4; 3] [1; 2; 3; 4])
               (fresh (two_left [1; 2; 4; 3]))).2).
Proof.
  assert ([1; 2; 4; 3] ∈ candidates (self (fresh (two_left [1; 2; 4; 3]))))
    as Hin by decide_closed.
  split; [exact Hin|].
  exact (proj1 (filter_candidates_keeps_secret [1; 2; 4; 3] [1; 2; 3; 4]
                  (fresh (two_left [1; 2; 4; 3])) Hin)).
Defined.

(** X7. A guess that did not score all bulls is removed: when the bulls
    of the feedback differ from the length of the guess, the guess is
    not in the pool after [filter_candidates], and the pool is strictly
    shorter if the guess was in it. *)
Theorem filter_candidates_drops_guess (guess : Code) (fb : Feedback) (w : Run) :
  fb.1 <> Z.of_nat (length guess) ->
  let old := candidates (self w) in
  let new := candidates (self (filter_candidates guess fb w).2) in
  (guess ∉ new) /\ (guess ∈ old -> (length new < length old)%nat).
Proof.
  intros Hfb. rewrite filter_candidates_run. simpl.
  assert (get_feedback guess guess <> fb) as Hne.
  { intros <-. apply Hfb.
    change (get_feedback guess guess).1 with (bulls guess guess).
    apply bulls_self. }
  split.
  - rewrite list_elem_of_filter. tauto.
  - intros Hin. by apply (length_filter_lt _ _ guess).
Qed.

Lemma filter_candidates_drops_guess_witness :
  (2, 2).1 <> Z.of_nat (length [1; 2; 3; 4]) /\
  [1; 2; 3; 4] ∉
    candidates (self (filter_candidates [1; 2; 3; 4] (2, 2)
                        (fresh (two_left [1; 2; 4; 3]))).2).
Proof.
  assert ((2, 2).1 <> Z.of_nat (length [1; 2; 3; 4])) as Hfb
    by (simpl; lia).
  split; [exact Hfb|].
  exact (proj1 (filter_candidates_drops_guess [1; 2; 3; 4] (2, 2)
                  (fresh (two_left [1; 2; 4; 3])) Hfb)).
Defined.

(** X8. The pool only ever loses members: after [filter_candidates] it
    is a sublist of the pool before, so it is no longer, keeps the order,
    and every property all old candidates had (being a valid Code, being
    in [all_combinations]) still holds. *)
Theorem filter_candidates_shrinks (guess : Code) (fb : Feedback) (w : Run)
    (P : Code -> Prop) :
  let old := candidates (self w) in
  let new := candidates (self (filter_candidates guess fb w).2) in
  (length new <= length old)%nat /\
  (Forall P old -> Forall P new) /\
  (NoDup old -> NoDup new).
Proof.
  rewrite filter_candidates_run. simpl. split_and!.
  - apply length_filter.
  - intros Hall. apply Forall_forall. intros c Hc.
    apply list_elem_of_filter in Hc as [_ Hc].
    by apply (proj1 (Forall_forall _ _) Hall).
  - apply NoDup_filter.
Qed.

(** ** [__init__] and [generate_secret] *)

Section Permutations.

Context {A : Type}.
Implicit Types (pool rest c : list A) (x : A).

Lemma elem_of_picks pool x rest :
  (x, rest) ∈ picks pool <->
  exists l1 l2, pool = l1 ++ x :: l2 /\ rest = l1 ++ l2.
Proof.
  revert rest. induction pool as [|y ys IH]; intros rest; simpl.
  - rewrite elem_of_nil. split; [tauto|].
    intros (l1 & l2 & H & _). by destruct l1.
  - rewrite elem_of_cons, list_elem_of_fmap. split.
    + intros [[= -> ->]|([x' r'] & [= -> ->] & Hin)].
      * by exists [], ys.
      * apply IH in Hin as (l1 & l2 & -> & ->). by exists (y :: l1), l2.
    + intros ([|z l1] & l2 & Hpool & ->); simpl in Hpool.
      * injection Hpool as -> ->. by left.
      * injection Hpool as -> ->. right. exists (x, l1 ++ l2).
        split; [reflexivity|]. apply IH. by exists l1, l2.
Qed.

Lemma picks_fst pool : map fst (picks pool) = pool.
Proof.
  induction pool as [|y ys IH]; [reflexivity|]. simpl. f_equal.
  rewrite map_map. simpl. exact IH.
Qed.

Lemma elem_of_flat_map {B C} (f : B -> list C) (l : list B) (c : C) :
  c ∈ flat_map f l <-> exists b, b ∈ l /\ c ∈ f b.
Proof.
  rewrite list_elem_of_In, in_flat_map.
  by setoid_rewrite list_elem_of_In.
Qed.

Lemma elem_of_permutations pool r c :
  NoDup pool ->
  c ∈ permutations pool r <-> length c = r /\ NoDup c /\ c ⊆ pool.
Proof.
  revert pool c. induction r as [|r IH]; intros pool c Hnd; simpl.
  - rewrite list_elem_of_singleton. split.
    + intros ->. split_and!; [done|constructor|set_solver].
    + intros (Hlen & _). by destruct c.
  - rewrite elem_of_flat_map. split.
    + intros ([x rest] & Hpick & Hc). simpl in Hc.
      apply list_elem_of_fmap in Hc as (c' & -> & Hc').
      apply elem_of_picks in Hpick as (l1 & l2 & -> & ->).
      apply NoDup_app in Hnd as (Hl1 & Hdis & Hl2).
      apply NoDup_cons in Hl2 as (Hx2 & Hl2).
      assert (NoDup (l1 ++ l2)) as Hrest.
      { apply NoDup_app. split_and!; [done| |done].
        intros z Hz1 Hz2. apply (Hdis z Hz1). by right. }
      apply (IH _ _ Hrest) in Hc' as (Hlen & Hndc & Hsub).
      split_and!.
      * simpl. by rewrite Hlen.
      * apply NoDup_cons. split; [|done]. intros Hx.
        apply Hsub, elem_of_app in Hx as [Hx|Hx]; [|done].
        apply (Hdis x Hx). by left.
      * intros z [->|Hz]%elem_of_cons; [set_solver|].
        apply Hsub, elem_of_app in Hz as [Hz|Hz]; set_solver.
    + intros (Hlen & Hndc & Hsub). destruct c as [|x c']; [done|].
      injection Hlen as Hlen.
      apply NoDup_cons in Hndc as (Hx & Hndc).
      assert (x ∈ pool) as Hxp by (apply Hsub; by left).
      apply list_elem_of_split in Hxp as (l1 & l2 & ->).
      apply NoDup_app in Hnd as (Hl1 & Hdis & Hl2).
      apply NoDup_cons in Hl2 as (Hx2 & Hl2).
      exists (x, l1 ++ l2). split.
      * apply elem_of_picks. by exists l1, l2.
      * simpl. apply list_elem_of_fmap. exists c'. split; [done|].
        apply IH.
        { apply NoDup_app. split_and!; [done| |done].
          intros z Hz1 Hz2. apply (Hdis z Hz1). by right. }
        split_and!; [done|done|].
        intros z Hz.
        assert (z ∈ l1 ++ x :: l2) as Hzp by (apply Hsub; by right).
        assert (z <> x) by (intros ->; done).
        set_solver.
Qed.

Lemma NoDup_blocks (perms : list A -> list (list A))
    (ps : list (A * list A)) :
  NoDup (map fst ps) ->
  (forall p, p ∈ ps -> NoDup (perms p.2)) ->
  NoDup (flat_map (fun p => map (cons p.1) (perms p.2)) ps).
Proof.
  induction ps as [|[x rest] ps IH]; simpl; intros Hheads Hblocks.
  - constructor.
  - apply NoDup_cons in Hheads as (Hx & Hheads).
    apply NoDup_app. split_and!.
    + apply (NoDup_fmap_2 (cons x)), (Hblocks (x, rest)). by left.
    + intros c Hc1 Hc2.
      apply list_elem_of_fmap in Hc1 as (c1 & -> & _).
      apply elem_of_flat_map in Hc2 as ([y r2] & Hp & Hc2). simpl in Hc2.
      apply list_elem_of_fmap in Hc2 as (c2 & [= -> _] & _).
      apply Hx. apply list_elem_of_fmap. by exists (y, r2).
    + apply IH; [done|]. intros p Hp. apply Hblocks. by right.
Qed.

Lemma NoDup_permutations pool r : NoDup pool -> NoDup (permutations pool r).
Proof.
  revert pool. induction r as [|r IH]; intros pool Hnd; simpl.
  - apply NoDup_singleton.
  - apply (NoDup_blocks (fun rest => permutations rest r)).
    + by rewrite picks_fst.
    + intros [x rest] (l1 & l2 & -> & ->)%elem_of_picks. simpl.
      apply IH.
      apply NoDup_app in Hnd as (Hl1 & Hdis & Hl2).
      apply NoDup_cons in Hl2 as (Hx2 & Hl2).
      apply NoDup_app. split_and!; [done| |done].
      intros z Hz1 Hz2. apply (Hdis z Hz1). by right.
Qed.

End Permutations.

Lemma subseteq_range_10 (c : Code) : c ⊆ range 10 <-> Forall is_symbol c.
Proof.
  rewrite Forall_forall. unfold subseteq, list_subseteq.
  by setoid_rewrite elem_of_range_10.
Qed.

Lemma elem_of_all_combinations (c : Code) :
  c ∈ all_combinations __init__ <-> valid_code c.
Proof.
  unfold __init__, valid_code. simpl.
  rewrite (elem_of_permutations (range 10) 4 c NoDup_range_10).
  by rewrite subseteq_range_10.
Qed.

(** X9. The Universe built by [__init__] is exactly the set of valid
    Codes: a tuple is in [all_combinations] if and only if it has four
    pairwise-distinct symbols from 0..9. *)
Theorem init_all_combinations_valid (c : Code) :
  c ∈ all_combinations __init__ <-> valid_code c.
Proof. apply elem_of_all_combinations. Qed.

(** X10. [__init__] lists every Code once: [all_combinations] has no
    duplicates and 5040 entries, the pool starts as the same list, and
    no secret is chosen yet. *)
Theorem init_all_combinations_distinct :
  NoDup (all_combinations __init__) /\
  length (all_combinations __init__) = 5040%nat /\
  candidates __init__ = all_combinations __init__ /\
  secret __init__ = None.
Proof.
  split_and!; [|vm_compute; reflexivity|reflexivity|reflexivity].
  apply NoDup_permutations, NoDup_range_10.
Qed.

(** X11. On a freshly built game, [generate_secret] with a draw below
    5040 returns without an error a valid Code, stores it as the secret,
    and that secret is in the candidate pool; the pool, the Universe and
    the output are left as they were. *)
Theorem generate_secret_fresh (draw : nat) :
  (draw < 5040)%nat ->
  exists s : Code,
    generate_secret draw (fresh __init__) =
    (Ok (Some s),
     fresh {| all_combinations := all_combinations __init__;
              candidates := candidates __init__;
              secret := Some s;
              history := [] |}) /\
    valid_code s /\
    s ∈ candidates __init__.
Proof.
  intros Hdraw.
  destruct (all_combinations __init__ !! draw) as [s|] eqn:Hs.
  - exists s.
    assert (s ∈ all_combinations __init__) as Hin
      by (apply list_elem_of_lookup; eauto).
    split_and!.
    + unfold generate_secret, bind, get_self, random_choice.
      change (self (fresh __init__)) with __init__. by rewrite Hs.
    + by apply elem_of_all_combinations.
    + exact Hin.
  - apply lookup_ge_None in Hs.
    assert (length (all_combinations __init__) = 5040%nat) as Hlen
      by (vm_compute; reflexivity).
    rewrite Hlen in Hs.
    exfalso. revert Hdraw Hs. generalize 5040%nat. intros n. lia.
Qed.

Lemma generate_secret_fresh_witness :
  (0 < 5040)%nat /\
  exists s : Code,
    generate_secret 0 (fresh __init__) =
    (Ok (Some s),
     fresh {| all_combinations := all_combinations __init__;
              candidates := candidates __init__;
              secret := Some s;
              history := [] |}) /\
    valid_code s /\
    s ∈ candidates __init__.
Proof.
  assert (0 < 5040)%nat as Hdraw
    by (apply Nat.ltb_lt; vm_compute; reflexivity).
  split; [exact Hdraw|]. exact (generate_secret_fresh 0 Hdraw).
Defined.

(** X12. With an empty [all_combinations], [generate_secret] raises
    [IndexError] (from [random.choice]) whatever the draw, before any
    assignment: the run, the old secret included, is left as it was. *)
Theorem generate_secret_empty (draw : nat) (w : Run) :
  all_combinations (self w) = [] ->
  generate_secret draw w = (Raise IndexError, w).
Proof.
  intros Hempty.
  unfold generate_secret, bind, get_self, random_choice.
  rewrite Hempty. reflexivity.
Qed.

Lemma generate_secret_empty_witness :
  all_combinations (self (fresh no_combinations)) = [] /\
  generate_secret 0 (fresh no_combinations) =
  (Raise IndexError, fresh no_combinations).
Proof.
  split; [reflexivity|].
  exact (generate_secret_empty 0 (fresh no_combinations) eq_refl).
Defined.

(** ** More on the entropy and on the search *)

Section Entropy.

Implicit Types (w : Run) (guess : Code) (pool cands : list Code).

Lemma counter_add_sum k counts :
  sum_list (values (counter_add k counts)) = S (sum_list (values counts)).
Proof.
  unfold values.
  induction counts as [|[k' n] counts IH]; simpl; [reflexivity|].
  destruct (decide (k = k')); simpl; [lia|]. rewrite IH. lia.
Qed.

Lemma Counter_sum outcomes :
  sum_list (values (Counter outcomes)) = length outcomes.
Proof.
  unfold Counter.
  assert (forall counts,
             sum_list (values (foldl (fun counts k => counter_add k counts)
                                 counts outcomes))
             = (sum_list (values counts) + length outcomes)%nat) as Hgen.
  { induction outcomes as [|k outcomes IH]; intros counts; simpl; [lia|].
    rewrite IH, counter_add_sum. lia. }
  rewrite Hgen. reflexivity.
Qed.

Lemma sum_list_ge (n : nat) (l : list nat) :
  n ∈ l -> (n <= sum_list l)%nat.
Proof.
  induction l as [|m l IH]; [by intros ?%elem_of_nil|].
  intros [->|Hin]%elem_of_cons; simpl; [lia|]. specialize (IH Hin). lia.
Qed.

(** Every count of a [Counter] lies between 1 and the number of
    outcomes counted. *)
Lemma Counter_bounds outcomes :
  Forall (fun n => (0 < n <= length outcomes)%nat) (values (Counter outcomes)).
Proof.
  apply Forall_forall. intros n Hn. split.
  - by apply (proj1 (Forall_forall _ _) (Counter_positive outcomes)).
  - rewrite <- Counter_sum. by apply sum_list_ge.
Qed.

Lemma log2_nonpos (p : R) : (0 < p <= 1)%R -> (log2 p <= 0)%R.
Proof.
  intros [Hp0 Hp1]. unfold log2.
  pose proof ln_lt_2 as H2.
  assert (ln p <= 0)%R as Hln.
  { destruct Hp1 as [Hlt| ->]; [|rewrite ln_1; lra].
    rewrite <- ln_1. left. by apply ln_increasing. }
  assert (0 < / ln 2)%R by (apply Rinv_0_lt_compat; lra).
  unfold Rdiv. nra.
Qed.

Lemma entropy_fold_ge (total : nat) (vs : list nat) (e : R) :
  Forall (fun n => (0 < n <= total)%nat) vs ->
  (e <= foldl (fun entropy count =>
                 let p := (INR count / INR total)%R in
                 (entropy - p * log2 p)%R) e vs)%R.
Proof.
  intros Hvs. revert e.
  induction Hvs as [|c vs [Hc0 Hct] Hvs IH]; intros e; simpl; [lra|].
  eapply Rle_trans; [|apply IH].
  assert (0 < INR c)%R by (apply lt_0_INR; lia).
  assert (0 < INR total)%R by (apply lt_0_INR; lia).
  assert (INR c <= INR total)%R by (by apply le_INR).
  assert (0 < INR c / INR total <= 1)%R as Hp.
  { split; [by apply Rdiv_lt_0_compat|].
    apply (Rmult_le_reg_r (INR total)); [done|].
    unfold Rdiv. rewrite Rmult_assoc, Rinv_l by lra. lra. }
  pose proof (log2_nonpos _ Hp). nra.
Qed.

Lemma entropy_of_nonneg guess pool : (0 <= entropy_of guess pool)%R.
Proof.
  unfold entropy_of. apply entropy_fold_ge.
  pose proof (Counter_bounds (map (fun c => get_feedback c guess) pool)) as H.
  by rewrite length_map in H.
Qed.

Lemma entropy_of_nil guess : entropy_of guess [] = 0%R.
Proof. reflexivity. Qed.

End Entropy.

(** X13. [calculate_guess_entropy] returns for every guess and every
    pool, the empty one included: the division never meets a zero total
    and [math.log2] never a non-positive argument. The entropy it
    returns is not negative, and is 0 on the empty pool; the object and
    the output are left as they were. *)
Theorem calculate_guess_entropy_total (guess : Code) (cands : list Code)
    (w : Run) :
  exists h : R,
    calculate_guess_entropy guess cands w = (Ok h, add_entropy_calls 1 w) /\
    (0 <= h)%R /\
    (cands = [] -> h = 0%R).
Proof.
  exists (entropy_of guess cands). split_and!.
  - apply calculate_guess_entropy_run.
  - apply entropy_of_nonneg.
  - intros ->. apply entropy_of_nil.
Qed.

Section Search.

Variable pool : list Code.

Let H (c : Code) : R := entropy_of c pool.

(** The loop keeps the first guess of greatest entropy seen so far. *)
Lemma scan_keeps_first_max (xs l1 l2 : list Code) (g : Code) :
  (forall c, c ∈ l1 -> (H c < H g)%R) ->
  (forall c, c ∈ l2 -> (H c <= H g)%R) ->
  exists l1' g' l2',
    (l1 ++ g :: l2) ++ xs = l1' ++ g' :: l2' /\
    foldl (scan_step pool) (Some g, H g) xs = (Some g', H g') /\
    (forall c, c ∈ l1' -> (H c < H g')%R) /\
    (forall c, c ∈ l2' -> (H c <= H g')%R).
Proof.
  revert l1 l2 g.
  induction xs as [|x xs IH]; intros l1 l2 g Hl1 Hl2; simpl.
  - exists l1, g, l2. by rewrite app_nil_r.
  - unfold scan_step at 2. simpl. fold (H x).
    destruct (Rgt_dec (H x) (H g)) as [Hgt|Hle].
    + destruct (IH (l1 ++ g :: l2) [] x) as (l1' & g' & l2' & Heq & Hrest).
      * intros c [Hc|[->|Hc]%elem_of_cons]%elem_of_app.
        -- specialize (Hl1 c Hc). lra.
        -- lra.
        -- specialize (Hl2 c Hc). lra.
      * by intros c ?%elem_of_nil.
      * exists l1', g', l2'. split; [|exact Hrest].
        rewrite <- Heq. by rewrite <- !app_assoc.
    + destruct (IH l1 (l2 ++ [x]) g) as (l1' & g' & l2' & Heq & Hrest).
      * exact Hl1.
      * intros c [Hc|Hc%list_elem_of_singleton]%elem_of_app.
        -- by apply Hl2.
        -- subst c. lra.
      * exists l1', g', l2'. split; [|exact Hrest].
        rewrite <- Heq, <- !app_assoc. simpl. by rewrite <- ?app_assoc.
Qed.

Lemma scan_from_start (xs : list Code) :
  xs <> [] ->
  exists l1 g l2,
    xs = l1 ++ g :: l2 /\
    foldl (scan_step pool) (None, (-1)%R) xs = (Some g, H g) /\
    (forall c, c ∈ l1 -> (H c < H g)%R) /\
    (forall c, c ∈ l2 -> (H c <= H g)%R).
Proof.
  destruct xs as [|x xs]; [done|]. intros _. simpl.
  unfold scan_step at 2. simpl. fold (H x).
  pose proof (entropy_of_nonneg x pool) as Hx. fold (H x) in Hx.
  destruct (Rgt_dec (H x) (-1)) as [_|Hn]; [|exfalso; apply Hn; lra].
  destruct (scan_keeps_first_max xs [] [] x)
    as (l1 & g & l2 & Heq & Hrest);
    [by intros c ?%elem_of_nil | by intros c ?%elem_of_nil |].
  exists l1, g, l2. split; [|exact Hrest]. by rewrite <- Heq.
Qed.

End Search.

Lemma suggest_best_guess_member (w : Run) :
  candidates (self w) <> [] ->
  length (candidates (self w)) <> 5040%nat ->
  exists g : Code,
    suggest_best_guess w =
    (Ok (Some g),
     add_entropy_calls (length (candidates (self w)))
       (add_line (thinking_line (length (candidates (self w)))) w)) /\
    g ∈ candidates (self w).
Proof.
  intros Hne Hlen. rewrite suggest_best_guess_run. cbv zeta.
  rewrite decide_False by exact Hlen.
  destruct (scan_from_start (candidates (self w)) (candidates (self w)) Hne)
    as (l1 & g & l2 & Heq & -> & _).
  exists g. split; [reflexivity|].
  rewrite Heq. apply elem_of_app. right. by left.
Qed.

(** X14. On a pool that is not empty and not of size 5040,
    [suggest_best_guess] returns without an error a guess that is a
    member of the pool (never [None]); it prints one line and evaluates
    exactly one entropy per candidate. *)
Theorem suggest_best_guess_in_pool (w : Run) :
  candidates (self w) <> [] ->
  length (candidates (self w)) <> 5040%nat ->
  exists g : Code,
    suggest_best_guess w =
    (Ok (Some g),
     add_entropy_calls (length (candidates (self w)))
       (add_line (thinking_line (length (candidates (self w)))) w)) /\
    g ∈ candidates (self w).
Proof. apply suggest_best_guess_member. Qed.

Lemma suggest_best_guess_in_pool_witness :
  candidates (self (fresh (two_left [1; 2; 4; 3]))) <> [] /\
  length (candidates (self (fresh (two_left [1; 2; 4; 3])))) <> 5040%nat /\
  exists g : Code,
    suggest_best_guess (fresh (two_left [1; 2; 4; 3])) =
    (Ok (Some g),
     add_entropy_calls 2
       (add_line (thinking_line 2) (fresh (two_left [1; 2; 4; 3])))) /\
    g ∈ candidates (self (fresh (two_left [1; 2; 4; 3]))).
Proof.
  assert (candidates (self (fresh (two_left [1; 2; 4; 3]))) <> [])
    as Hne by (simpl; discriminate).
  assert (length (candidates (self (fresh (two_left [1; 2; 4; 3]))))
          <> 5040%nat) as Hlen by (vm_compute; discriminate).
  split; [exact Hne|]. split; [exact Hlen|].
  exact (suggest_best_guess_in_pool (fresh (two_left [1; 2; 4; 3])) Hne Hlen).
Defined.



Lemma log2_pos (x : R) : (1 < x)%R -> (0 < log2 x)%R.
Proof.
  intros Hx. unfold log2.
  pose proof ln_lt_2 as H2.
  assert (0 < ln x)%R by (rewrite <- ln_1; apply ln_increasing; lra).
  apply Rdiv_lt_0_compat; lra.
Qed.

Lemma log2_1 : log2 1 = 0%R.
Proof. unfold log2. rewrite ln_1. lra. Qed.

(** X16. [calculate_uncertainty] returns without an error a value that
    is not negative, and that is 0 exactly when at most one candidate is
    left; the run is left as it was. *)
Theorem calculate_uncertainty_zero_iff (w : Run) :
  exists u : R,
    calculate_uncertainty w = (Ok u, w) /\
    (0 <= u)%R /\
    (u = 0%R <-> (length (candidates (self w)) <= 1)%nat).
Proof.
  rewrite calculate_uncertainty_run.
  set (n := length (candidates (self w))).
  eexists. split; [reflexivity|].
  destruct (decide (n = 0%nat)) as [Hn|Hn].
  - split; [lra|]. split; [lia|reflexivity].
  - destruct (decide (n = 1%nat)) as [H1|H1].
    + rewrite H1. simpl INR. rewrite log2_1.
      split; [lra|]. split; [lia|reflexivity].
    + assert (1 < INR n)%R as Hgt.
      { change 1%R with (INR 1). apply lt_INR. lia. }
      pose proof (log2_pos _ Hgt).
      split; [lra|]. split; [lra|lia].
Qed.

(** ** [parse_input] *)

Section ParseInput.

Implicit Types (text : string) (ch : Ascii.ascii) (w : Run) (c : Code).

Lemma length_chars text : length (chars text) = String.length text.
Proof.
  unfold chars. induction text as [|ch text IH]; simpl; [reflexivity|].
  by rewrite IH.
Qed.

Lemma is_decimal_isdigit ch : is_decimal ch = true -> char_isdigit ch = true.
Proof. unfold char_isdigit. by intros ->. Qed.

Lemma is_decimal_symbol ch :
  is_decimal ch = true -> is_symbol (code_point ch - 48).
Proof. unfold is_decimal, is_symbol. lia. Qed.

Lemma digit_char_decimal (d : Z) :
  is_symbol d ->
  is_decimal (digit_char d) = true /\
  code_point (digit_char d) - 48 = d /\
  pretty d = String (digit_char d) "".
Proof.
  unfold is_symbol. intros Hd.
  assert (d = 0 \/ d = 1 \/ d = 2 \/ d = 3 \/ d = 4 \/ d = 5 \/ d = 6
          \/ d = 7 \/ d = 8 \/ d = 9) as Hcases by lia.
  repeat destruct Hcases as [->|Hcases]; try subst d; by vm_compute.
Qed.

Lemma decimal_digit_char ch :
  is_decimal ch = true -> digit_char (code_point ch - 48) = ch.
Proof.
  intros Hdec. unfold digit_char, code_point.
  replace (Z.to_N (48 + (Z.of_N (Ascii.N_of_ascii ch) - 48)))
    with (Ascii.N_of_ascii ch) by lia.
  apply Ascii.ascii_N_embedding.
Qed.

(** The loop of [int] calls stops at the first character that is no
    decimal digit. *)
Lemma digits_loop_run (cs : list Ascii.ascii) (acc : Code) w :
  for_each cs (fun d digits => v <- int_char d ;; ret (digits ++ [v])) acc w
  = if forallb is_decimal cs
    then (Ok (acc ++ map (fun d => code_point d - 48) cs), w)
    else (Raise ValueError, w).
Proof.
  revert acc. induction cs as [|ch cs IH]; intros acc; simpl.
  - by rewrite app_nil_r.
  - unfold bind at 1. unfold bind at 1. unfold int_char.
    destruct (is_decimal ch); simpl; [|reflexivity].
    unfold ret at 1 2. rewrite IH.
    destruct (forallb is_decimal cs); [|reflexivity].
    by rewrite <- app_assoc.
Qed.

Lemma parse_input_run text w :
  parse_input text w =
  (if negb (String.length text =? 4)%nat || negb (isdigit text) then Ok None
   else if all_decimal text
        then if negb (size (symbol_set (digit_values text)) =? 4)%nat
             then Ok None
             else Ok (Some (digit_values text))
        else Raise ValueError,
   w).
Proof.
  unfold parse_input.
  destruct (negb (String.length text =? 4)%nat || negb (isdigit text));
    [reflexivity|].
  unfold bind. rewrite digits_loop_run.
  unfold all_decimal, digit_values, chars.
  destruct (forallb is_decimal (String.list_ascii_of_string text));
    [|reflexivity].
  simpl app.
  by destruct (negb (size (symbol_set _) =? 4)%nat).
Qed.

Lemma size_symbol_set_le c : (size (symbol_set c) <= length c)%nat.
Proof.
  unfold symbol_set. induction c as [|x c IH].
  - change (list_to_set [] : gset Z) with (∅ : gset Z).
    rewrite size_empty. simpl. lia.
  - change (list_to_set (x :: c) : gset Z)
      with ({[x]} ∪ list_to_set c : gset Z).
    simpl length. rewrite size_union_alt, size_singleton.
    assert (size (list_to_set c ∖ {[x]} : gset Z)
            <= size (list_to_set c : gset Z))%nat
      by (apply subseteq_size; set_solver).
    lia.
Qed.

Lemma size_symbol_set_NoDup c :
  size (symbol_set c) = length c <-> NoDup c.
Proof.
  split; [|apply size_list_to_set].
  unfold symbol_set. induction c as [|x c IH]; simpl; intros Hsize.
  - constructor.
  - pose proof (size_symbol_set_le c) as Hle. unfold symbol_set in Hle.
    destruct (decide (x ∈ c)) as [Hin|Hnin].
    + exfalso.
      assert (({[x]} ∪ list_to_set c : gset Z) = list_to_set c) as Heq
        by set_solver.
      rewrite Heq in Hsize. lia.
    + rewrite size_union, size_singleton in Hsize by set_solver.
      apply NoDup_cons. split; [exact Hnin|]. apply IH. lia.
Qed.

Lemma join_str_digit_values (cs : list Ascii.ascii) :
  forallb is_decimal cs = true ->
  join_str (map (fun d => code_point d - 48) cs)
  = String.string_of_list_ascii cs.
Proof.
  induction cs as [|ch cs IH]; simpl; [reflexivity|].
  intros [Hch Hcs]%andb_true_iff. rewrite (IH Hcs).
  pose proof (digit_char_decimal _ (is_decimal_symbol ch Hch))
    as (_ & _ & Hpretty).
  rewrite Hpretty, (decimal_digit_char ch Hch). reflexivity.
Qed.

Lemma chars_join_str c :
  Forall is_symbol c -> chars (join_str c) = map digit_char c.
Proof.
  unfold chars. induction 1 as [|d c Hd Hc IH]; simpl; [reflexivity|].
  pose proof (digit_char_decimal d Hd) as (_ & _ & ->).
  change (String.list_ascii_of_string
            (String (digit_char d) (join_str c))
          = digit_char d :: map digit_char c).
  simpl. by rewrite IH.
Qed.

Lemma forallb_digit_chars (f : Ascii.ascii -> bool) c :
  (forall d, is_symbol d -> f (digit_char d) = true) ->
  Forall is_symbol c -> forallb f (map digit_char c) = true.
Proof.
  intros Hf. induction 1 as [|d c Hd Hc IH]; simpl; [reflexivity|].
  by rewrite (Hf d Hd), IH.
Qed.

Lemma digit_values_join_str c :
  Forall is_symbol c -> digit_values (join_str c) = c.
Proof.
  intros Hc. unfold digit_values. rewrite (chars_join_str c Hc).
  induction Hc as [|d c Hd Hc IH]; simpl; [reflexivity|].
  pose proof (digit_char_decimal d Hd) as (_ & -> & _). by rewrite IH.
Qed.

End ParseInput.

Lemma isdigit_chars (text : string) :
  isdigit text =
  negb (String.length text =? 0)%nat && forallb char_isdigit (chars text).
Proof. destruct text; reflexivity. Qed.

Lemma digit_values_symbols (text : string) :
  all_decimal text = true -> Forall is_symbol (digit_values text).
Proof.
  unfold all_decimal, digit_values.
  induction (chars text) as [|ch cs IH]; simpl; [constructor|].
  intros [Hch Hcs]%andb_true_iff.
  constructor; [by apply is_decimal_symbol | by apply IH].
Qed.

Lemma length_digit_values (text : string) :
  length (digit_values text) = String.length text.
Proof. unfold digit_values. by rewrite length_map, length_chars. Qed.

Lemma join_str_accepted (c : Code) :
  valid_code c ->
  String.length (join_str c) = 4%nat /\
  isdigit (join_str c) = true /\
  all_decimal (join_str c) = true /\
  digit_values (join_str c) = c /\
  size (symbol_set c) = 4%nat.
Proof.
  intros (Hlen & Hnd & Hsym).
  assert (String.length (join_str c) = 4%nat) as Hl.
  { by rewrite <- length_chars, (chars_join_str c Hsym), length_map. }
  split_and!.
  - exact Hl.
  - rewrite isdigit_chars, Hl, (chars_join_str c Hsym). simpl.
    apply forallb_digit_chars; [|exact Hsym].
    intros d Hd. apply is_decimal_isdigit.
    by destruct (digit_char_decimal d Hd).
  - unfold all_decimal. rewrite (chars_join_str c Hsym).
    apply forallb_digit_chars; [|exact Hsym].
    intros d Hd. by destruct (digit_char_decimal d Hd).
  - by apply digit_values_join_str.
  - rewrite <- Hlen. by apply size_symbol_set_NoDup.
Qed.

(** X17. [parse_input] returns a Code exactly for the texts that spell
    one: it returns [c] if and only if [c] is a valid Code (four
    pairwise-distinct symbols from 0..9) and the text is
    [''.join(map(str, c))]. So every Code it returns is valid, and every
    valid Code, printed as [play] prints it, is read back as itself. *)
Theorem parse_input_some_iff (text : string) (c : Code) (w : Run) :
  parse_input text w = (Ok (Some c), w) <->
  valid_code c /\ text = join_str c.
Proof.
  rewrite parse_input_run. split.
  - intros [= Hres].
    destruct (negb (String.length text =? 4)%nat || negb (isdigit text))
      eqn:Hguard; [discriminate|].
    destruct (all_decimal text) eqn:Hdec; [|discriminate].
    destruct (negb (size (symbol_set (digit_values text)) =? 4)%nat)
      eqn:Hsize; [discriminate|].
    injection Hres as <-.
    apply orb_false_iff in Hguard as [Hlen _].
    apply negb_false_iff, Nat.eqb_eq in Hlen.
    apply negb_false_iff, Nat.eqb_eq in Hsize.
    split.
    + split_and!.
      * by rewrite length_digit_values.
      * apply size_symbol_set_NoDup.
        by rewrite length_digit_values, Hlen.
      * by apply digit_values_symbols.
    + unfold digit_values. rewrite join_str_digit_values by exact Hdec.
      unfold chars. by rewrite String.string_of_list_ascii_of_string.
  - intros [Hvalid ->].
    destruct (join_str_accepted c Hvalid) as (-> & -> & -> & -> & ->).
    reflexivity.
Qed.

(** X18. [parse_input] raises exactly on a text of four characters that
    all pass [isdigit] but are not all decimal digits (a superscript
    two, three or one among them): the [int] call raises [ValueError],
    where the caller expects [None]. *)
Theorem parse_input_raises_iff (text : string) (e : exn) (w : Run) :
  (parse_input text w).1 = Raise e <->
  e = ValueError /\ String.length text = 4%nat /\ isdigit text = true /\
  all_decimal text = false.
Proof.
  rewrite parse_input_run. simpl. split.
  - destruct (negb (String.length text =? 4)%nat || negb (isdigit text))
      eqn:Hguard; [discriminate|].
    apply orb_false_iff in Hguard as [Hlen Hdig].
    apply negb_false_iff, Nat.eqb_eq in Hlen.
    apply negb_false_iff in Hdig.
    destruct (all_decimal text) eqn:Hdec.
    + by destruct (negb (size (symbol_set (digit_values text)) =? 4)%nat).
    + by intros [= <-].
  - intros (-> & Hlen & Hdig & Hdec).
    rewrite Hlen, Hdig, Hdec. reflexivity.
Qed.

Example parse_input_12cubed4 (w : Run) :
  parse_input text_12cubed4 w = (Raise ValueError, w).
Proof. reflexivity. Qed.

(** X19. [parse_input] never changes the run, and it returns [None]
    exactly when the text has not four characters, or has a character
    that is no digit, or spells four decimal digits that are not
    pairwise distinct. *)
Theorem parse_input_none_iff (text : string) (w : Run) :
  (parse_input text w).2 = w /\
  ((parse_input text w).1 = Ok None <->
   String.length text <> 4%nat \/ isdigit text = false \/
   (all_decimal text = true /\ ~ NoDup (digit_values text))).
Proof.
  rewrite parse_input_run. simpl. split; [reflexivity|].
  destruct (Nat.eqb_spec (String.length text) 4) as [Hlen|Hlen]; simpl.
  2: { split; [by left | reflexivity]. }
  destruct (isdigit text) eqn:Hdig; simpl.
  2: { split; [by right; left | reflexivity]. }
  destruct (all_decimal text) eqn:Hdec.
  - destruct (Nat.eqb_spec (size (symbol_set (digit_values text))) 4)
      as [Hsize|Hsize]; simpl.
    + assert (NoDup (digit_values text)) as Hnd.
      { apply size_symbol_set_NoDup.
        by rewrite length_digit_values, Hlen. }
      split; [discriminate|]. intros [?|[?|[_ ?]]]; done.
    + split; [|reflexivity]. intros _. right. right.
      split; [reflexivity|]. intros Hnd%size_symbol_set_NoDup.
      rewrite length_digit_values, Hlen in Hnd. done.
  - split; [discriminate|]. intros [?|[?|[? _]]]; done.
Qed.

(** ** The methods together *)

(** X20. A feedback of all bulls leaves nothing but the guess: when all
    candidates have the length of the guess and the bulls of the
    feedback equal that length, every candidate left by
    [filter_candidates] is the guess itself. *)
Theorem filter_candidates_full_bulls (guess : Code) (fb : Feedback) (w : Run) :
  Forall (fun c : Code => length c = length guess) (candidates (self w)) ->
  fb.1 = Z.of_nat (length guess) ->
  forall c : Code,
    c ∈ candidates (self (filter_candidates guess fb w).2) -> c = guess.
Proof.
  intros Hlens Hfb c. rewrite filter_candidates_run. simpl.
  intros [Hc Hin]%list_elem_of_filter.
  assert (length c = length guess) as Hlen
    by (by apply (proj1 (Forall_forall _ _) Hlens)).
  symmetry. apply (bulls_length_iff c guess Hlen).
  rewrite Hc, Hlen. exact Hfb.
Qed.

Lemma filter_candidates_full_bulls_witness :
  Forall (fun c : Code => length c = length [1; 2; 3; 4])
    (candidates (self (fresh (two_left [1; 2; 3; 4])))) /\
  (4, 0).1 = Z.of_nat (length [1; 2; 3; 4]) /\
  forall c : Code,
    c ∈ candidates (self (filter_candidates [1; 2; 3; 4] (4, 0)
                            (fresh (two_left [1; 2; 3; 4]))).2) ->
    c = [1; 2; 3; 4].
Proof.
  assert (Forall (fun c : Code => length c = length [1; 2; 3; 4])
            (candidates (self (fresh (two_left [1; 2; 3; 4])))))
    as Hlens by (repeat constructor).
  assert ((4, 0).1 = Z.of_nat (length [1; 2; 3; 4])) as Hfb
    by reflexivity.
  split; [exact Hlens|]. split; [exact Hfb|].
  exact (filter_candidates_full_bulls [1; 2; 3; 4] (4, 0)
           (fresh (two_left [1; 2; 3; 4])) Hlens Hfb).
Defined.

(** X21. The advisor never comes back to a guess that failed: after
    [filter_candidates] with a feedback whose bulls differ from the
    length of the guess, if the pool left is not empty and not of size
    5040, [suggest_best_guess] returns a candidate other than that
    guess. *)
Theorem suggest_after_filter_differs (guess : Code) (fb : Feedback) (w : Run) :
  fb.1 <> Z.of_nat (length guess) ->
  let w' := (filter_candidates guess fb w).2 in
  candidates (self w') <> [] ->
  length (candidates (self w')) <> 5040%nat ->
  exists g : Code,
    (suggest_best_guess w').1 = Ok (Some g) /\
    g ∈ candidates (self w') /\
    g <> guess.
Proof.
  intros Hfb w' Hne Hlen.
  destruct (suggest_best_guess_member w' Hne Hlen) as (g & Hrun & Hin).
  exists g. split_and!; [by rewrite Hrun|exact Hin|].
  intros ->. revert Hin. unfold w'. rewrite filter_candidates_run. simpl.
  rewrite list_elem_of_filter. intros [Hc _]. apply Hfb.
  rewrite <- Hc.
  change (get_feedback guess guess).1 with (bulls guess guess).
  apply bulls_self.
Qed.

Lemma suggest_after_filter_differs_witness :
  (2, 2).1 <> Z.of_nat (length [1; 2; 3; 4]) /\
  candidates (self (filter_candidates [1; 2; 3; 4] (2, 2)
                      (fresh (two_left [1; 2; 4; 3]))).2) <> [] /\
  length (candidates (self (filter_candidates [1; 2; 3; 4] (2, 2)
                              (fresh (two_left [1; 2; 4; 3]))).2))
  <> 5040%nat /\
  exists g : Code,
    (suggest_best_guess (filter_candidates [1; 2; 3; 4] (2, 2)
                           (fresh (two_left [1; 2; 4; 3]))).2).1
    = Ok (Some g) /\
    g ∈ candidates (self (filter_candidates [1; 2; 3; 4] (2, 2)
                            (fresh (two_left [1; 2; 4; 3]))).2) /\
    g <> [1; 2; 3; 4].
Proof.
  assert ((2, 2).1 <> Z.of_nat (length [1; 2; 3; 4])) as Hfb
    by (simpl; lia).
  assert (candidates (self (filter_candidates [1; 2; 3; 4] (2, 2)
                              (fresh (two_left [1; 2; 4; 3]))).2) <> [])
    as Hne by (vm_compute; discriminate).
  assert (length (candidates (self (filter_candidates [1; 2; 3; 4] (2, 2)
                                      (fresh (two_left [1; 2; 4; 3]))).2))
          <> 5040%nat) as Hlen by (vm_compute; discriminate).
  split; [exact Hfb|]. split; [exact Hne|]. split; [exact Hlen|].
  exact (suggest_after_filter_differs [1; 2; 3; 4] (2, 2)
           (fresh (two_left [1; 2; 4; 3])) Hfb Hne Hlen).
Defined.
